(** * Magic Session Mixer: the per-session row and its handlers

    A shallow embedding of [AppRow] of [magic_session_mixer.py]: the three
    notification callbacks ([update_volume], [update_mute], [update_state])
    and the two user commands ([_slide_volume], [_toogle_mute]).

    Numbers are Python floats, that is IEEE 754 binary64: they are embedded as
    Rocq's primitive floats, so [new_volume*100], [float(value)/100] and the
    comparison [self.volume != new_volume] round and compare as they do in
    the program.

    A method is a computation over the row: it may change the row, append to
    a trace of calls that leave the process (lines printed, writes to the
    audio session, the teardown of the row's widgets) and raise.  A Python
    exception does not roll anything back, so an outcome keeps the row and
    the trace reached when the exception was raised. *)

From Stdlib Require Import String List Bool ZArith Lia.
From Corelib Require Import PrimFloat SpecFloat FloatOps FloatAxioms.
Import ListNotations.

Local Open Scope string_scope.
Local Open Scope list_scope.

(** ** pycaw.constants.AudioSessionState *)

(** The three members the handlers compare against, and [Other] for any
    value that equals none of them (the handlers take whatever the callback
    passes; nothing in the source restricts it). *)
Module AudioSessionState.

Inductive t : Type :=
| Inactive
| Active
| Expired
| Other (code : Z).

End AudioSessionState.
Import AudioSessionState.

(** ** The row *)

(** Modelled from the spec: the audio session behind a row,
    [pycaw.magic.MagicSession], which is not part of the source.  It holds
    the session's ground truth ([volume] in [0.0, 1.0], [muted], status) and
    accepts the two commands [write_volume] and [write_mute]; [toggle_mute]
    reads the current [muted], issues the inverted value and returns it. *)
Record MagicSession : Type := {
  app_exec : string;
  volume : float;
  mute : bool;
  state : AudioSessionState.t
}.

(** [AppRow(MagicSession, Frame)]: the session it inherits from, and the
    Tk side: the slider's [DoubleVar], the mute button's [StringVar] and
    style, the status line's style, and whether the row's widgets still
    exist ([False] once [destroy] has run). *)
Record AppRow : Type := {
  session : MagicSession;
  app_name : string;
  volume_slider_state : float;
  mute_button_state : string;
  mute_button_style : string;
  status_line_style : string;
  winfo_exists : bool
}.

(** ** What leaves the process *)

(** The lines the handlers print, one constructor per f-string. *)
Inductive line : Type :=
| NewSessionLine (name : string)                 (* ":: new session: {name}" *)
| VolumeLine (name : string) (v : float)         (* "{name} volume: {v}" *)
| MuteLine (name : string) (icon : string)       (* "{name} mute: {icon}" *)
| StateLine (name : string) (s : AudioSessionState.t) (* "{name} state: {s}" *)
| ClosedLine (name : string)                     (* ":: closed session: {name}" *)
| WithPycawLine (name : string) (v : float).     (* "with pycaw: {name} volume: {v}" *)

Inductive effect : Type :=
| Stdout (l : line)            (* print(...) *)
| SetMasterVolume (v : float)  (* self.volume = v : a write to the audio session *)
| SetMute (b : bool)           (* self.mute = b, issued by toggle_mute *)
| DestroyRow.                  (* self.destroy(): the teardown of the row *)

(** A command sent to a widget that no longer exists raises
    [_tkinter.TclError] (invalid command name); the widget is recorded. *)
Inductive widget : Type := MuteButton | StatusLine.

Inductive exn : Type :=
| TclError (w : widget).

(** ** The monad of a method body *)

Record outcome (A : Type) : Type := Outcome {
  result : A + exn;
  final : AppRow;
  trace : list effect
}.
Arguments Outcome {A} _ _ _.
Arguments result {A} _.
Arguments final {A} _.
Arguments trace {A} _.

Definition M (A : Type) : Type := AppRow -> outcome A.

Definition ret {A : Type} (a : A) : M A :=
  fun r => Outcome (inl a) r [].

Definition raise {A : Type} (e : exn) : M A :=
  fun r => Outcome (inr e) r [].

Definition bind {A B : Type} (m : M A) (k : A -> M B) : M B :=
  fun r =>
    let o := m r in
    match result o with
    | inl a =>
        let o' := k a (final o) in
        Outcome (result o') (final o') (trace o ++ trace o')
    | inr e => Outcome (inr e) (final o) (trace o)
    end.

Declare Scope row_scope.
Delimit Scope row_scope with row.
Notation "x <- m ;; k" := (bind m (fun x => k))
  (at level 61, m at next level, right associativity) : row_scope.
Notation "m ;; k" := (bind m (fun _ => k))
  (at level 61, right associativity) : row_scope.
Local Open Scope row_scope.

Definition get : M AppRow := fun r => Outcome (inl r) r [].
Definition put (r : AppRow) : M unit := fun _ => Outcome (inl tt) r [].
Definition emit (e : effect) : M unit := fun r => Outcome (inl tt) r [e].

Definition print (l : line) : M unit := emit (Stdout l).

(** ** Tk *)

(** Field updates of the row, one per attribute the handlers assign. *)
Definition with_session (s : MagicSession) (r : AppRow) : AppRow :=
  {| session := s; app_name := app_name r;
     volume_slider_state := volume_slider_state r;
     mute_button_state := mute_button_state r;
     mute_button_style := mute_button_style r;
     status_line_style := status_line_style r;
     winfo_exists := winfo_exists r |}.

Definition with_volume_slider_state (x : float) (r : AppRow) : AppRow :=
  {| session := session r; app_name := app_name r;
     volume_slider_state := x;
     mute_button_state := mute_button_state r;
     mute_button_style := mute_button_style r;
     status_line_style := status_line_style r;
     winfo_exists := winfo_exists r |}.

Definition with_mute_button_state (icon : string) (r : AppRow) : AppRow :=
  {| session := session r; app_name := app_name r;
     volume_slider_state := volume_slider_state r;
     mute_button_state := icon;
     mute_button_style := mute_button_style r;
     status_line_style := status_line_style r;
     winfo_exists := winfo_exists r |}.

Definition with_mute_button_style (style : string) (r : AppRow) : AppRow :=
  {| session := session r; app_name := app_name r;
     volume_slider_state := volume_slider_state r;
     mute_button_state := mute_button_state r;
     mute_button_style := style;
     status_line_style := status_line_style r;
     winfo_exists := winfo_exists r |}.

Definition with_status_line_style (style : string) (r : AppRow) : AppRow :=
  {| session := session r; app_name := app_name r;
     volume_slider_state := volume_slider_state r;
     mute_button_state := mute_button_state r;
     mute_button_style := mute_button_style r;
     status_line_style := style;
     winfo_exists := winfo_exists r |}.

Definition destroyed (r : AppRow) : AppRow :=
  {| session := session r; app_name := app_name r;
     volume_slider_state := volume_slider_state r;
     mute_button_state := mute_button_state r;
     mute_button_style := mute_button_style r;
     status_line_style := status_line_style r;
     winfo_exists := false |}.

(** [Variable.set]: the Tcl variable belongs to the interpreter, not to the
    widget bound to it, so it can be set whether or not the row exists. *)
Definition volume_slider_state_set (x : float) : M unit :=
  r <- get ;; put (with_volume_slider_state x r).

Definition mute_button_state_set (icon : string) : M unit :=
  r <- get ;; put (with_mute_button_state icon r).

(** [self.mute_button.configure(style=...)] *)
Definition mute_button_configure (style : string) : M unit :=
  r <- get ;;
  if winfo_exists r then put (with_mute_button_style style r)
  else raise (TclError MuteButton).

(** [self.status_line.configure(style=...)] *)
Definition status_line_configure (style : string) : M unit :=
  r <- get ;;
  if winfo_exists r then put (with_status_line_style style r)
  else raise (TclError StatusLine).

(** [self.destroy()]: the row and its children are destroyed.  Tk's
    [destroy] accepts a window that is already gone. *)
Definition destroy : M unit :=
  r <- get ;;
  emit DestroyRow ;;
  put (destroyed r).

(** ** MagicSession *)

Definition with_volume (v : float) (s : MagicSession) : MagicSession :=
  {| app_exec := app_exec s; volume := v; mute := mute s; state := state s |}.

Definition with_mute (b : bool) (s : MagicSession) : MagicSession :=
  {| app_exec := app_exec s; volume := volume s; mute := b; state := state s |}.


(** Modelled from the spec: the getter of [MagicSession.volume], the
    session's current volume. *)
Definition volume_get : M float :=
  r <- get ;; ret (volume (session r)).

(** Modelled from the spec: the setter of [MagicSession.volume], the
    command [write_volume]: one write to the audio session.  The model has
    the session hold the value from then on and has no failure of the
    write: a session that exists accepts it. *)
Definition volume_set (v : float) : M unit :=
  r <- get ;;
  emit (SetMasterVolume v) ;;
  put (with_session (with_volume v (session r)) r).

(** Modelled from the spec: [MagicSession.toggle_mute], which reads the
    current [muted], issues the inverted value to the audio session and
    returns the new value.  As for [volume_set], the model has the session
    hold the value from then on and has no failure of the write. *)
Definition toggle_mute : M bool :=
  r <- get ;;
  let new_mute := negb (mute (session r)) in
  emit (SetMute new_mute) ;;
  put (with_session (with_mute new_mute (session r)) r) ;;
  ret new_mute.

(** ** AppRow's methods *)

Definition icon_muted : string := "🔈".
Definition icon_unmuted : string := "🔊".

(** [update_volume(self, new_volume)] *)
Definition update_volume (new_volume : float) : M unit :=
  r <- get ;;
  print (VolumeLine (app_name r) new_volume) ;;
  volume_slider_state_set (new_volume * 100)%float.

(** [update_mute(self, new_mute)] *)
Definition update_mute (new_mute : bool) : M unit :=
  icon <- (if new_mute
           then mute_button_configure "Muted.TButton" ;; ret icon_muted
           else mute_button_configure "Unmuted.TButton" ;; ret icon_unmuted) ;;
  r <- get ;;
  print (MuteLine (app_name r) icon) ;;
  mute_button_state_set icon.

(** [update_state(self, new_state)] *)
Definition update_state (new_state : AudioSessionState.t) : M unit :=
  r <- get ;;
  print (StateLine (app_name r) new_state) ;;
  match new_state with
  | Inactive => status_line_configure "Inactive.TFrame"
  | Active => status_line_configure "Active.TFrame"
  | Expired =>
      status_line_configure "TFrame" ;;
      print (ClosedLine (app_name r)) ;;
      destroy
  | Other _ => ret tt
  end.

(** [_slide_volume(self, value)]; [value] is the slider position, the
    number that [float(value)] reads from the string Tk passes. *)
Definition _slide_volume (value : float) : M unit :=
  let new_volume := (value / 100)%float in
  current <- volume_get ;;
  if negb (current =? new_volume)%float then
    r <- get ;;
    print (WithPycawLine (app_name r) new_volume) ;;
    volume_set new_volume
  else ret tt.

(** [_toogle_mute(self)] *)
Definition _toogle_mute : M unit :=
  new_mute <- toggle_mute ;;
  update_mute new_mute.

(** [__init__]: the part that sets the row's state, up to the initial
    [update_state]; the layout calls after it set nothing the handlers
    read. *)
Definition __init__ (s : MagicSession) : outcome unit :=
  (print (NewSessionLine (app_exec s)) ;;
   volume_slider_state_set (volume s * 100)%float ;;
   update_mute (mute s) ;;
   update_state (state s))
  {| session := s; app_name := app_exec s;
     volume_slider_state := 0%float;
     mute_button_state := "";
     mute_button_style := "";
     status_line_style := "";
     winfo_exists := true |}.

(** ** Delivery of notifications *)

(** The three callbacks [__init__] registers with the session:
    [volume_callback=self.update_volume], [mute_callback=self.update_mute],
    [state_callback=self.update_state]. *)
Inductive notification : Type :=
| OnVolume (new_volume : float)
| OnMute (new_mute : bool)
| OnState (new_state : AudioSessionState.t).

Definition deliver (n : notification) : M unit :=
  match n with
  | OnVolume v => update_volume v
  | OnMute b => update_mute b
  | OnState s => update_state s
  end.

(** A run of callbacks, in the order of delivery.  Each callback is a call
    of its own: one that raises ends there, and the next notification is
    still delivered to the row as the failed call left it. *)
Record run : Type := Run {
  row : AppRow;
  output : list effect;
  raised : list exn
}.

Fixpoint deliver_all (ns : list notification) (r : AppRow) : run :=
  match ns with
  | [] => Run r [] []
  | n :: rest =>
      let o := deliver n r in
      let k := deliver_all rest (final o) in
      Run (row k) (trace o ++ output k)
          (match result o with inl _ => raised k | inr e => e :: raised k end)
  end.

(** ** Observations on a trace *)

Definition is_session_write (e : effect) : bool :=
  match e with
  | SetMasterVolume _ | SetMute _ => true
  | _ => false
  end.

Definition is_teardown (e : effect) : bool :=
  match e with
  | DestroyRow => true
  | _ => false
  end.

(** The calls made to the audio session, in order. *)
Definition session_writes (t : list effect) : list effect :=
  filter is_session_write t.

(** How many times the teardown of the row was issued. *)
Definition teardowns (t : list effect) : nat :=
  length (filter is_teardown t).

(** The payload of the last notification of each kind, in delivery order. *)
Fixpoint last_volume (ns : list notification) : option float :=
  match ns with
  | [] => None
  | n :: rest =>
      match last_volume rest with
      | Some v => Some v
      | None => match n with OnVolume v => Some v | _ => None end
      end
  end.

Fixpoint last_mute (ns : list notification) : option bool :=
  match ns with
  | [] => None
  | n :: rest =>
      match last_mute rest with
      | Some b => Some b
      | None => match n with OnMute b => Some b | _ => None end
      end
  end.


(** What [update_mute] shows for a mute value. *)
Definition mute_icon (b : bool) : string :=
  if b then icon_muted else icon_unmuted.

Definition mute_style (b : bool) : string :=
  if b then "Muted.TButton" else "Unmuted.TButton".

(** The line a callback prints first for a notification. *)
Definition printed (name : string) (n : notification) : effect :=
  match n with
  | OnVolume v => Stdout (VolumeLine name v)
  | OnMute b => Stdout (MuteLine name (mute_icon b))
  | OnState s => Stdout (StateLine name s)
  end.

(** ** The slider's positions *)

(** The float of a natural number (exact for the small numbers used
    here). *)
Fixpoint float_of_nat (n : nat) : float :=
  match n with
  | O => 0%float
  | S k => (float_of_nat k + 1)%float
  end.

(** The positions 0, 1, ..., 100 of [Scale(from_=0, to=100)]. *)
Definition slider_positions : list float := map float_of_nat (seq 0 101).

Definition in_unit_interval (v : float) : bool :=
  ((0 <=? v) && (v <=? 1))%float.

(** ** Notifications, observed *)

Definition is_expired (n : notification) : bool :=
  match n with
  | OnState Expired => true
  | _ => false
  end.

(** The row a callback leaves behind when the row's widgets exist: the
    assignments of its branch, and nothing else. *)
Definition applied (n : notification) (r : AppRow) : AppRow :=
  match n with
  | OnVolume v => with_volume_slider_state (v * 100)%float r
  | OnMute b =>
      with_mute_button_state (mute_icon b)
        (with_mute_button_style (mute_style b) r)
  | OnState Inactive => with_status_line_style "Inactive.TFrame" r
  | OnState Active => with_status_line_style "Active.TFrame" r
  | OnState Expired => destroyed (with_status_line_style "TFrame" r)
  | OnState (Other _) => r
  end.

(** What a callback prints and issues when the row's widgets exist. *)
Definition emitted (name : string) (n : notification) : list effect :=
  printed name n ::
  (if is_expired n then [Stdout (ClosedLine name); DestroyRow] else []).

(** The style [update_state] gives the status line, when it gives one. *)
Definition shown_status (s : AudioSessionState.t) : option string :=
  match s with
  | Inactive => Some "Inactive.TFrame"
  | Active => Some "Active.TFrame"
  | Expired => Some "TFrame"
  | Other _ => None
  end.

(** The style of the last state notification that sets one. *)
Fixpoint last_status_style (ns : list notification) : option string :=
  match ns with
  | [] => None
  | n :: rest =>
      match last_status_style rest with
      | Some st => Some st
      | None => match n with OnState s => shown_status s | _ => None end
      end
  end.

(** The widget a callback sends a command to, if any: [update_volume]
    only sets a variable, and [update_state] configures the status line in
    its three branches only. *)
Definition commanded (n : notification) : option widget :=
  match n with
  | OnVolume _ => None
  | OnMute _ => Some MuteButton
  | OnState (Other _) => None
  | OnState _ => Some StatusLine
  end.

(** The exceptions a sequence raises on a row without widgets. *)
Fixpoint raised_when_gone (ns : list notification) : list exn :=
  match ns with
  | [] => []
  | n :: rest =>
      match commanded n with
      | Some w => TclError w :: raised_when_gone rest
      | None => raised_when_gone rest
      end
  end.

(** The notifications that follow the first [Expired]. *)
Fixpoint after_first_expired (ns : list notification) : list notification :=
  match ns with
  | [] => []
  | n :: rest => if is_expired n then rest else after_first_expired rest
  end.

(** The mute button's text and style are those of one mute value. *)
Definition mute_button_agrees (r : AppRow) : Prop :=
  exists b : bool,
    mute_button_state r = mute_icon b /\ mute_button_style r = mute_style b.

(** The range of [Scale(from_=0, to=100)]. *)
Definition in_slider_range (x : float) : bool :=
  ((0 <=? x) && (x <=? 100))%float.

(** A float whose significand fits 24 bits.  The audio session reports
    volumes in single precision; such a value, read as a Python float, is
    zero or of this form. *)
Definition short_significand (v : float) : Prop :=
  match Prim2SF v with
  | S754_zero _ => True
  | S754_finite _ m e =>
      exists a : positive,
        m = (a * 536870912)%positive /\
        (8388608 <= Zpos a < 16777216)%Z /\ (-1073 <= e <= 964)%Z
  | _ => False
  end.


(** Modelled from the spec: the quantization of the comparison in 4.2 and
    4.3, "rounding to the display's granularity".  The display is the
    slider, from 0 to 100, and its granularity is taken as one position: a
    volume is quantized to the whole position nearest to the volume times
    100 (adding and then subtracting 2^52 rounds a small float to the
    nearest integer). *)
Definition display_position (v : float) : float :=
  (v * 100 + 0x1p52 - 0x1p52)%float.

(** ** The user's gestures *)







(** ** A session to run the handlers on *)

(** The scenario of the specification: "app.exe" at volume 0.50, not muted,
    active. *)
Definition app_exe : MagicSession :=
  {| app_exec := "app.exe"; volume := 0.5%float; mute := false;
     state := Active |}.

Definition app_row : AppRow := final (__init__ app_exe).

(** The row of the same application with its session at another volume. *)
Definition app_row_at (v : float) : AppRow :=
  final (__init__ (with_volume v app_exe)).

(** The same row once its session has expired. *)
Definition expired_row : AppRow := final (update_state Expired app_row).


(** * Properties *)

(** ** The handlers, case by case *)

(** Each handler is straight-line code: on a given row its outcome is a
    closed form, one per branch. *)

Lemma update_volume_eq (new_volume : float) (r : AppRow) :
  update_volume new_volume r =
  Outcome (inl tt) (with_volume_slider_state (new_volume * 100)%float r)
          [Stdout (VolumeLine (app_name r) new_volume)].
Proof. reflexivity. Qed.

Lemma update_mute_live (new_mute : bool) (r : AppRow) :
  winfo_exists r = true ->
  update_mute new_mute r =
  Outcome (inl tt)
          (with_mute_button_state (mute_icon new_mute)
             (with_mute_button_style (mute_style new_mute) r))
          [Stdout (MuteLine (app_name r) (mute_icon new_mute))].
Proof.
  intros Hlive. unfold update_mute, mute_button_configure, bind, get.
  destruct new_mute; cbn; rewrite Hlive; reflexivity.
Qed.

Lemma update_mute_gone (new_mute : bool) (r : AppRow) :
  winfo_exists r = false ->
  update_mute new_mute r = Outcome (inr (TclError MuteButton)) r [].
Proof.
  intros Hgone. unfold update_mute, mute_button_configure, bind, get.
  destruct new_mute; cbn; rewrite Hgone; reflexivity.
Qed.

Lemma update_state_other (code : Z) (r : AppRow) :
  update_state (Other code) r =
  Outcome (inl tt) r [Stdout (StateLine (app_name r) (Other code))].
Proof. reflexivity. Qed.

Lemma update_state_expired_live (r : AppRow) :
  winfo_exists r = true ->
  update_state Expired r =
  Outcome (inl tt) (destroyed (with_status_line_style "TFrame" r))
          [Stdout (StateLine (app_name r) Expired);
           Stdout (ClosedLine (app_name r)); DestroyRow].
Proof.
  intros Hlive. unfold update_state, status_line_configure, bind, get.
  cbn. rewrite Hlive. reflexivity.
Qed.

Lemma update_state_gone (new_state : AudioSessionState.t) (r : AppRow) :
  winfo_exists r = false ->
  update_state new_state r =
  Outcome (match new_state with
           | Other _ => inl tt
           | _ => inr (TclError StatusLine)
           end)
          r [Stdout (StateLine (app_name r) new_state)].
Proof.
  intros Hgone. unfold update_state, status_line_configure, bind, get.
  destruct new_state; cbn; rewrite ?Hgone; reflexivity.
Qed.

Lemma slide_volume_eq (value : float) (r : AppRow) :
  _slide_volume value r =
  if (volume (session r) =? value / 100)%float
  then Outcome (inl tt) r []
  else Outcome (inl tt)
         (with_session (with_volume (value / 100)%float (session r)) r)
         [Stdout (WithPycawLine (app_name r) (value / 100)%float);
          SetMasterVolume (value / 100)%float].
Proof.
  unfold _slide_volume, volume_get, bind, get, ret. cbn.
  destruct (volume (session r) =? value / 100)%float; reflexivity.
Qed.

Lemma toogle_mute_live (r : AppRow) :
  winfo_exists r = true ->
  _toogle_mute r =
  Outcome (inl tt)
          (with_mute_button_state (mute_icon (negb (mute (session r))))
             (with_mute_button_style (mute_style (negb (mute (session r))))
                (with_session
                   (with_mute (negb (mute (session r))) (session r)) r)))
          [SetMute (negb (mute (session r)));
           Stdout (MuteLine (app_name r) (mute_icon (negb (mute (session r)))))].
Proof.
  intros Hlive. unfold _toogle_mute, bind at 1.
  change (toggle_mute r) with
    (Outcome (inl (negb (mute (session r))))
             (with_session (with_mute (negb (mute (session r))) (session r)) r)
             [SetMute (negb (mute (session r)))]).
  cbn [result final trace].
  rewrite update_mute_live by exact Hlive.
  reflexivity.
Qed.

Lemma toogle_mute_gone (r : AppRow) :
  winfo_exists r = false ->
  _toogle_mute r =
  Outcome (inr (TclError MuteButton))
          (with_session (with_mute (negb (mute (session r))) (session r)) r)
          [SetMute (negb (mute (session r)))].
Proof.
  intros Hgone. unfold _toogle_mute, bind at 1.
  change (toggle_mute r) with
    (Outcome (inl (negb (mute (session r))))
             (with_session (with_mute (negb (mute (session r))) (session r)) r)
             [SetMute (negb (mute (session r)))]).
  cbn [result final trace].
  rewrite update_mute_gone by exact Hgone.
  reflexivity.
Qed.

(** ** Notifications never write back *)

(** C3. Handling a volume-changed notification issues no write to the audio
    session: for every payload and every row, [update_volume] returns
    normally, its trace holds no call to the session (the only thing it
    emits is the printed line), the session is left as it was, and the
    display refresh it performs is the assignment of the slider's variable,
    which calls no handler. *)
Theorem update_volume_never_writes_back (new_volume : float) (r : AppRow) :
  result (update_volume new_volume r) = inl tt /\
  session_writes (trace (update_volume new_volume r)) = [] /\
  session (final (update_volume new_volume r)) = session r /\
  final (update_volume new_volume r) =
    with_volume_slider_state (new_volume * 100)%float r.
Proof.
  rewrite update_volume_eq. cbn. repeat split.
Qed.

(** ** Commands *)

(** C5, as the code has it. [_slide_volume] compares the two binary64
    floats with Python's [!=] and applies no quantization.  It is a no-op
    (it returns normally with an empty trace, so no call to the audio
    session and nothing printed, and the row, session included, is
    unchanged) exactly when [float(value)/100] compares equal to the
    session's current volume; when it does not, the write of
    [float(value)/100] is issued, whatever the two agree on after
    rounding. *)
Theorem slide_volume_noop_iff_exactly_equal (value : float) (r : AppRow) :
  (_slide_volume value r = Outcome (inl tt) r [] <->
   (volume (session r) =? value / 100)%float = true) /\
  ((volume (session r) =? value / 100)%float = false ->
   session_writes (trace (_slide_volume value r))
   = [SetMasterVolume (value / 100)%float]).
Proof.
  rewrite slide_volume_eq.
  destruct (volume (session r) =? value / 100)%float.
  - split; [split; reflexivity | discriminate].
  - split; [split; discriminate | reflexivity].
Qed.

(** C5, as stated, fails on the row of "app.exe" with its session at 0.3 in
    single precision (0.30000001192092896): the slider shows position
    30.000001192092896, and a slide to 30 asks for the binary64 float 0.3.
    The two volumes are at the same position of the display, 30, and yet
    the write is issued. *)
Lemma slide_volume_writes_at_equal_display_position :
  volume (session (app_row_at 0x1.333334p-2)) = 0x1.333334p-2%float /\
  volume_slider_state (app_row_at 0x1.333334p-2) = 0x1.e000014p+4%float /\
  display_position 0x1.333334p-2 = 30%float /\
  display_position (30 / 100) = 30%float /\
  session_writes (trace (_slide_volume 30 (app_row_at 0x1.333334p-2)))
  = [SetMasterVolume (30 / 100)%float].
Proof. repeat split. Qed.

(** C8. On a row whose widgets exist, [_toogle_mute] reads the session's
    current mute value, issues exactly one call to the audio session, the
    write of the inverted value, gets that inverted value back from
    [toggle_mute], and shows it at once: the button's text and style become
    those of the inverted value. *)
Theorem toogle_mute_inverts_and_shows (r : AppRow) :
  winfo_exists r = true ->
  result (toggle_mute r) = inl (negb (mute (session r))) /\
  result (_toogle_mute r) = inl tt /\
  session_writes (trace (_toogle_mute r)) = [SetMute (negb (mute (session r)))] /\
  mute (session (final (_toogle_mute r))) = negb (mute (session r)) /\
  mute_button_state (final (_toogle_mute r)) = mute_icon (negb (mute (session r))) /\
  mute_button_style (final (_toogle_mute r)) = mute_style (negb (mute (session r))).
Proof.
  intros Hlive. rewrite toogle_mute_live by exact Hlive.
  cbn. repeat split.
Qed.

Lemma toogle_mute_inverts_and_shows_witness :
  winfo_exists app_row = true /\
  session_writes (trace (_toogle_mute app_row)) = [SetMute true] /\
  mute_button_state (final (_toogle_mute app_row)) = icon_muted /\
  mute_button_style (final (_toogle_mute app_row)) = "Muted.TButton".
Proof.
  pose proof (toogle_mute_inverts_and_shows app_row eq_refl)
    as (_ & _ & Hw & _ & Hicon & Hstyle).
  split; [reflexivity | exact (conj Hw (conj Hicon Hstyle))].
Defined.

(** ** State changes *)

(** C9. A state-change notification whose status is none of [Inactive],
    [Active] and [Expired] leaves the row as it is, on a live row and on a
    torn-down one alike: [update_state] prints its line and returns
    normally; no widget is configured, no teardown is issued, and nothing is
    sent to the audio session. *)
Theorem update_state_unknown_status_is_frame
    (new_state : AudioSessionState.t) (r : AppRow) :
  new_state <> Inactive -> new_state <> Active -> new_state <> Expired ->
  update_state new_state r =
  Outcome (inl tt) r [Stdout (StateLine (app_name r) new_state)].
Proof.
  intros Hi Ha He.
  destruct new_state as [ | | | code]; try contradiction.
  apply update_state_other.
Qed.

Lemma update_state_unknown_status_is_frame_witness :
  update_state (Other 3) app_row =
  Outcome (inl tt) app_row [Stdout (StateLine "app.exe" (Other 3))].
Proof.
  apply (update_state_unknown_status_is_frame (Other 3) app_row); discriminate.
Defined.

(** ** Sequences of notifications *)





(** ** After the session has expired *)

(** A notification delivered to a torn-down row: whatever its outcome, it
    issues neither a teardown nor a call to the audio session, and the only
    attribute it can still assign is the slider's variable. *)
Lemma deliver_gone (n : notification) (r : AppRow) :
  winfo_exists r = false ->
  final (deliver n r) =
    match n with
    | OnVolume v => with_volume_slider_state (v * 100)%float r
    | _ => r
    end /\
  session_writes (trace (deliver n r)) = [] /\
  teardowns (trace (deliver n r)) = 0.
Proof.
  intros Hgone. destruct n as [v | b | s]; cbn [deliver].
  - rewrite update_volume_eq. cbn. repeat split.
  - rewrite update_mute_gone by exact Hgone. cbn. repeat split.
  - rewrite update_state_gone by exact Hgone. cbn. repeat split.
Qed.

Lemma session_writes_app (t u : list effect) :
  session_writes (t ++ u) = session_writes t ++ session_writes u.
Proof. apply filter_app. Qed.

Lemma teardowns_app (t u : list effect) :
  teardowns (t ++ u) = teardowns t + teardowns u.
Proof. unfold teardowns. rewrite filter_app. apply length_app. Qed.

Lemma deliver_all_gone (ns : list notification) (r : AppRow) :
  winfo_exists r = false ->
  row (deliver_all ns r) =
    match last_volume ns with
    | Some v => with_volume_slider_state (v * 100)%float r
    | None => r
    end /\
  session_writes (output (deliver_all ns r)) = [] /\
  teardowns (output (deliver_all ns r)) = 0.
Proof.
  revert r. induction ns as [ | n ns IH]; intros r Hgone.
  - cbn. repeat split.
  - destruct (deliver_gone n r Hgone) as (Hf & Hw & Ht).
    assert (Hgone' : winfo_exists (final (deliver n r)) = false).
    { rewrite Hf. destruct n; exact Hgone. }
    destruct (IH _ Hgone') as (Hrow & Hws & Hts).
    cbn [deliver_all row output].
    rewrite session_writes_app, teardowns_app, Hw, Ht, Hws, Hts, Hrow, Hf.
    repeat split.
    cbn [last_volume].
    destruct (last_volume ns) as [w | ]; destruct n; reflexivity.
Qed.

(** C1, as the code has it. Processing [Expired] on a live row returns
    normally, issues the teardown once and leaves the row without widgets.
    No notification delivered afterwards brings the row back, issues a
    second teardown, writes to the audio session or reconfigures a widget:
    the row stays as the teardown left it, except that the handlers hold no
    guard on expiry and [update_volume] still assigns the slider's variable,
    which after any later sequence holds the last volume payload times
    100. *)
Theorem expired_row_under_later_notifications
    (ns : list notification) (r : AppRow) :
  winfo_exists r = true ->
  result (update_state Expired r) = inl tt /\
  teardowns (trace (update_state Expired r)) = 1 /\
  winfo_exists (final (update_state Expired r)) = false /\
  row (deliver_all ns (final (update_state Expired r))) =
    match last_volume ns with
    | Some v =>
        with_volume_slider_state (v * 100)%float
          (final (update_state Expired r))
    | None => final (update_state Expired r)
    end /\
  session_writes (output (deliver_all ns (final (update_state Expired r)))) = [] /\
  teardowns (output (deliver_all ns (final (update_state Expired r)))) = 0.
Proof.
  intros Hlive.
  rewrite (update_state_expired_live r Hlive). cbn [result final trace].
  split; [reflexivity | ]. split; [reflexivity | ]. split; [reflexivity | ].
  apply deliver_all_gone. reflexivity.
Qed.

Lemma expired_row_under_later_notifications_witness :
  winfo_exists app_row = true /\
  row (deliver_all [OnMute true; OnVolume 0.25; OnState Expired] expired_row) =
    with_volume_slider_state 25 expired_row.
Proof.
  split; [reflexivity | ].
  pose proof (expired_row_under_later_notifications
                [OnMute true; OnVolume 0.25; OnState Expired] app_row eq_refl)
    as (_ & _ & _ & Hrow & _).
  exact Hrow.
Defined.

(** C1, as stated, fails on the expired row of "app.exe": a later volume
    notification returns normally and moves the slider's variable from 50
    to 25, and a later mute notification is not dropped but raises. *)
Lemma expired_row_still_follows_volume :
  winfo_exists expired_row = false /\
  volume_slider_state expired_row = 50%float /\
  result (deliver (OnVolume 0.25) expired_row) = inl tt /\
  volume_slider_state (final (deliver (OnVolume 0.25) expired_row)) = 25%float /\
  final (deliver (OnVolume 0.25) expired_row) <> expired_row /\
  result (deliver (OnMute true) expired_row) = inr (TclError MuteButton).
Proof.
  repeat split; try reflexivity.
  intros Heq. apply (f_equal volume_slider_state) in Heq.
  apply (f_equal (fun x => (x =? 50)%float)) in Heq.
  vm_compute in Heq. discriminate Heq.
Qed.

(** C7, as the code has it. The teardown is not guarded, and a second
    [Expired] is not a silent no-op: it reaches [status_line.configure] on
    the destroyed widget, which raises before [destroy] is called again.  So
    across two [Expired] notifications the teardown is issued exactly once
    when the row existed and not at all when it did not, and the second
    call leaves the row as the first one left it. *)
Theorem expired_twice_tears_down_once (r : AppRow) :
  teardowns (trace (update_state Expired r)
             ++ trace (update_state Expired (final (update_state Expired r))))
  = (if winfo_exists r then 1 else 0) /\
  winfo_exists (final (update_state Expired r)) = false /\
  result (update_state Expired (final (update_state Expired r)))
  = inr (TclError StatusLine) /\
  final (update_state Expired (final (update_state Expired r)))
  = final (update_state Expired r).
Proof.
  destruct (winfo_exists r) eqn:Hexists.
  - rewrite (update_state_expired_live r Hexists). cbn [final trace].
    rewrite update_state_gone by reflexivity.
    cbn. repeat split.
  - rewrite (update_state_gone Expired r Hexists). cbn [final trace].
    rewrite (update_state_gone Expired r Hexists).
    cbn. repeat split. exact Hexists.
Qed.

(** C7, as stated, fails on the row of "app.exe": the first [Expired]
    returns normally, the duplicate raises. *)
Lemma duplicate_expired_raises :
  winfo_exists app_row = true /\
  result (update_state Expired app_row) = inl tt /\
  result (update_state Expired (final (update_state Expired app_row)))
  = inr (TclError StatusLine).
Proof. repeat split. Qed.

(** ** The slider's scale *)

(** C6, as the code has it. [_slide_volume] does not clamp: for every input
    it returns normally and issues at most one write, whose value is
    exactly [float(value)/100].  That value lies in [0.0, 1.0] at each
    position 0, 1, ..., 100 of the slider; the interval is kept by the
    slider's range, not by the handler. *)
Theorem slide_volume_writes_unclamped (value : float) (r : AppRow) :
  result (_slide_volume value r) = inl tt /\
  session_writes (trace (_slide_volume value r)) =
    (if (volume (session r) =? value / 100)%float then []
     else [SetMasterVolume (value / 100)%float]) /\
  forallb (fun p => in_unit_interval (p / 100)%float) slider_positions = true.
Proof.
  rewrite slide_volume_eq.
  split; [ | split].
  - destruct (volume (session r) =? value / 100)%float; reflexivity.
  - destruct (volume (session r) =? value / 100)%float; reflexivity.
  - vm_compute. reflexivity.
Qed.

(** C6, as stated, fails on the row of "app.exe": a position of 150 is
    written as 1.5, which is above 1.0. *)
Lemma slide_volume_out_of_range_is_written :
  result (_slide_volume 150 app_row) = inl tt /\
  session_writes (trace (_slide_volume 150 app_row)) = [SetMasterVolume 1.5%float] /\
  in_unit_interval 1.5%float = false.
Proof. repeat split. Qed.

(** Outside single precision the two roundings of the slider's scale need
    not cancel.  At the binary64 float nearest to 0.007, which no
    single-precision value equals, a notification would show
    0.7000000000000001 and a slide to that position would ask for
    0.007000000000000001, the next float up. *)
Lemma slider_round_trip_is_not_exact :
  volume_slider_state
    (final (update_volume 0x1.cac083126e979p-8 app_row))
  = 0x1.6666666666667p-1%float /\
  (0x1.6666666666667p-1 / 100)%float = 0x1.cac083126e97ap-8%float /\
  (0x1.cac083126e97ap-8 =? 0x1.cac083126e979p-8)%float = false /\
  session_writes
    (trace (_slide_volume 0x1.6666666666667p-1
              (with_session (with_volume 0x1.cac083126e979p-8 app_exe)
                 (final (update_volume 0x1.cac083126e979p-8 app_row)))))
  = [SetMasterVolume 0x1.cac083126e97ap-8%float].
Proof. repeat split. Qed.

(** * The arithmetic of the slider's scale *)

(** The handlers scale by one hundred in binary64: [new_volume*100] and
    [float(value)/100].  This part relates the two operations to the
    specification of binary64 arithmetic ([SpecFloat]) and derives the three
    facts the row depends on: the quotient of a position in [0, 100] is a
    volume in [0, 1], the product of a volume in [0, 1] is a position in
    [0, 100], and for a volume with a 24-bit significand the product and the
    quotient are exact. *)
Module Binary64.

Local Open Scope Z_scope.

Lemma digits2_pos_size (p : positive) : digits2_pos p = Pos.size p.
Proof. induction p; cbn; congruence. Qed.

Lemma digits2_pos_bounds (p : positive) :
  2 ^ (Zpos (digits2_pos p) - 1) <= Zpos p < 2 ^ Zpos (digits2_pos p).
Proof.
  rewrite digits2_pos_size.
  split.
  - pose proof (Pos.size_le p) as H.
    assert (Hp : (2 ^ Pos.size p <= p~0)%positive) by exact H.
    apply Pos2Z.pos_le_pos in Hp. rewrite Pos2Z.inj_pow in Hp.
    replace (Zpos (Pos.size p)) with (Z.succ (Zpos (Pos.size p) - 1)) in Hp by lia.
    rewrite Z.pow_succ_r in Hp by lia. lia.
  - pose proof (Pos.size_gt p) as H.
    apply Pos2Z.pos_lt_pos in H. rewrite Pos2Z.inj_pow in H. exact H.
Qed.

Lemma Zdigits2_lt_pow2 (q a : Z) :
  0 <= a -> 0 <= q < 2 ^ a -> Zdigits2 q <= a.
Proof.
  intros Ha [Hq0 Hq]. destruct q as [ | p | p]; cbn [Zdigits2]; try lia.
  pose proof (digits2_pos_bounds p) as [Hlo _].
  assert (Hlt : 2 ^ (Zpos (digits2_pos p) - 1) < 2 ^ a) by lia.
  apply Z.pow_lt_mono_r_iff in Hlt; lia.
Qed.

Lemma Zdigits2_le_pow2 (q a : Z) :
  0 <= a -> 0 <= q <= 2 ^ a -> Zdigits2 q <= a + 1.
Proof.
  intros Ha [Hq0 Hq]. apply Zdigits2_lt_pow2; [lia | ].
  split; [exact Hq0 | ].
  rewrite Z.pow_add_r by lia. pose proof (Z.pow_pos_nonneg 2 a); lia.
Qed.

Lemma fexp64 (x : Z) : fexp prec emax x = Z.max (x - 53) (-1074).
Proof. reflexivity. Qed.

Lemma shr_1_m (mrs : shr_record) :
  0 <= shr_m mrs -> shr_m (shr_1 mrs) = shr_m mrs / 2.
Proof.
  destruct mrs as [m r s]. cbn [shr_m]. intros Hm.
  rewrite <- Z.div2_div.
  destruct m as [ | [p | p | ] | p]; try reflexivity; lia.
Qed.

Lemma pow2_pos (a : Z) : 0 <= a -> 0 < 2 ^ a.
Proof. intros Ha. apply Z.pow_pos_nonneg; lia. Qed.

Lemma div_div_pow2 (m a b : Z) :
  0 <= a -> 0 <= b -> m / 2 ^ a / 2 ^ b = m / 2 ^ (a + b).
Proof.
  intros Ha Hb. pose proof (pow2_pos a Ha). pose proof (pow2_pos b Hb).
  rewrite Z.div_div by lia. rewrite Z.pow_add_r by lia. reflexivity.
Qed.

Lemma iter_shr_1_m (n : positive) :
  forall mrs, 0 <= shr_m mrs ->
  shr_m (iter_pos shr_1 n mrs) = shr_m mrs / 2 ^ Zpos n.
Proof.
  induction n as [n IH | n IH | ]; intros mrs Hm; cbn [iter_pos].
  - assert (H1 : 0 <= shr_m (shr_1 mrs)).
    { rewrite shr_1_m by exact Hm. apply Z.div_pos; lia. }
    assert (H2 : 0 <= shr_m (iter_pos shr_1 n (shr_1 mrs))).
    { rewrite IH by exact H1. apply Z.div_pos; [exact H1 | apply pow2_pos; lia]. }
    rewrite IH by exact H2. rewrite IH by exact H1. rewrite shr_1_m by exact Hm.
    change 2 with (2 ^ 1) at 1.
    rewrite !div_div_pow2 by lia.
    do 2 f_equal. lia.
  - assert (H1 : 0 <= shr_m (iter_pos shr_1 n mrs)).
    { rewrite IH by exact Hm. apply Z.div_pos; [exact Hm | apply pow2_pos; lia]. }
    rewrite IH by exact H1. rewrite IH by exact Hm.
    rewrite div_div_pow2 by lia.
    do 2 f_equal. lia.
  - rewrite shr_1_m by exact Hm. reflexivity.
Qed.

Lemma shr_m_spec (mrs : shr_record) (e n : Z) :
  0 <= shr_m mrs ->
  shr_m (fst (shr mrs e n)) = shr_m mrs / 2 ^ Z.max 0 n /\
  snd (shr mrs e n) = e + Z.max 0 n.
Proof.
  intros Hm. destruct n as [ | p | p]; cbn [shr fst snd].
  - rewrite Z.max_id. cbn. rewrite Z.div_1_r. lia.
  - rewrite Z.max_r by lia. split; [apply iter_shr_1_m, Hm | reflexivity].
  - rewrite Z.max_l by lia. cbn. rewrite Z.div_1_r. lia.
Qed.

Lemma shr_record_of_loc_m (m : Z) (l : location) :
  shr_m (shr_record_of_loc m l) = m.
Proof. destruct l as [ | [ | | ]]; reflexivity. Qed.

Lemma round_nearest_even_bounds (m : Z) (l : location) :
  m <= round_nearest_even m l <= m + 1.
Proof.
  destruct l as [ | [ | | ]]; cbn [round_nearest_even]; try lia.
  destruct (Z.even m); lia.
Qed.

(** The shape of a rounding: two right shifts around a step of at most one
    unit in the last place. *)
Lemma binary_round_aux_shape (sx : bool) (q e : Z) (l : location) :
  0 <= q ->
  exists q2 : Z,
    q / 2 ^ Z.max 0 (fexp prec emax (Zdigits2 q + e) - e) <= q2
      <= q / 2 ^ Z.max 0 (fexp prec emax (Zdigits2 q + e) - e) + 1 /\
    binary_round_aux prec emax sx q e l =
      let e1 := e + Z.max 0 (fexp prec emax (Zdigits2 q + e) - e) in
      let k2 := Z.max 0 (fexp prec emax (Zdigits2 q2 + e1) - e1) in
      match q2 / 2 ^ k2 with
      | Z0 => S754_zero sx
      | Zpos m =>
          if e1 + k2 <=? emax - prec then S754_finite sx m (e1 + k2)
          else S754_infinity sx
      | Zneg _ => S754_nan
      end.
Proof.
  intros Hq. unfold binary_round_aux, shr_fexp.
  set (k1 := fexp prec emax (Zdigits2 q + e) - e).
  pose proof (shr_m_spec (shr_record_of_loc q l) e k1) as H1.
  rewrite shr_record_of_loc_m in H1. specialize (H1 Hq).
  destruct (shr (shr_record_of_loc q l) e k1) as [mrs1 e1] eqn:E1.
  cbn [fst snd] in H1. destruct H1 as [Hm1 He1].
  set (q2 := round_nearest_even (shr_m mrs1) (loc_of_shr_record mrs1)).
  exists q2.
  pose proof (round_nearest_even_bounds (shr_m mrs1) (loc_of_shr_record mrs1)) as Hb.
  fold q2 in Hb. rewrite Hm1 in Hb.
  split; [exact Hb | ].
  assert (Hq2 : 0 <= q2).
  { assert (0 <= q / 2 ^ Z.max 0 k1) by (apply Z.div_pos; [lia | apply Z.pow_pos_nonneg; lia]). lia. }
  set (k2 := fexp prec emax (Zdigits2 q2 + e1) - e1).
  pose proof (shr_m_spec (shr_record_of_loc q2 loc_Exact) e1 k2) as H2.
  rewrite shr_record_of_loc_m in H2. specialize (H2 Hq2).
  destruct (shr (shr_record_of_loc q2 loc_Exact) e1 k2) as [mrs2 e2] eqn:E2.
  cbn [fst snd] in H2. destruct H2 as [Hm2 He2].
  cbn zeta. rewrite Hm2, He2. subst k2. rewrite He1. reflexivity.
Qed.

(** A value below the float [b * 2^eb] rounds to at most that float. *)
Lemma binary_round_aux_below (b : positive) (eb q e : Z) (l : location) :
  Zpos b < 2 ^ 53 -> -1074 <= eb <= 971 ->
  0 <= q -> e <= eb -> q < Zpos b * 2 ^ (eb - e) ->
  binary_round_aux prec emax false q e l = S754_zero false \/
  exists (m : positive) (e3 : Z),
    binary_round_aux prec emax false q e l = S754_finite false m e3 /\
    e3 <= eb /\ Zpos m <= Zpos b * 2 ^ (eb - e3).
Proof.
  intros Hb Heb Hq He Hlt.
  destruct (binary_round_aux_shape false q e l Hq) as (q2 & Hq2 & ->).
  cbn zeta. rewrite !fexp64 in Hq2. rewrite !fexp64.
  assert (Hd : Zdigits2 q <= 53 + (eb - e)).
  { apply Zdigits2_lt_pow2; [lia | ]. split; [exact Hq | ].
    rewrite Z.pow_add_r by lia.
    pose proof (pow2_pos (eb - e) ltac:(lia)). nia. }
  set (k1 := Z.max 0 (Z.max (Zdigits2 q + e - 53) (-1074) - e)) in *.
  assert (Hk1 : 0 <= k1 /\ e + k1 <= eb) by (subst k1; lia).
  set (e1 := e + k1) in *.
  assert (Hpow1 : 2 ^ (eb - e) = 2 ^ k1 * 2 ^ (eb - e1)).
  { rewrite <- Z.pow_add_r by lia. f_equal. subst e1. lia. }
  pose proof (pow2_pos k1 ltac:(lia)) as Hp1.
  pose proof (pow2_pos (eb - e1) ltac:(lia)) as Hp1'.
  assert (Hq1 : q / 2 ^ k1 < Zpos b * 2 ^ (eb - e1)).
  { apply Z.div_lt_upper_bound; [exact Hp1 | ].
    rewrite Hpow1 in Hlt. lia. }
  assert (Hq1' : 0 <= q / 2 ^ k1) by (apply Z.div_pos; lia).
  assert (Hd2 : Zdigits2 q2 <= 53 + (eb - e1)).
  { apply Zdigits2_lt_pow2; [lia | ]. split; [lia | ].
    rewrite Z.pow_add_r by lia. nia. }
  set (k2 := Z.max 0 (Z.max (Zdigits2 q2 + e1 - 53) (-1074) - e1)) in *.
  assert (Hk2 : 0 <= k2 /\ e1 + k2 <= eb) by (subst k2; lia).
  assert (Hpow2 : 2 ^ (eb - e1) = 2 ^ k2 * 2 ^ (eb - (e1 + k2))).
  { rewrite <- Z.pow_add_r by lia. f_equal. lia. }
  pose proof (pow2_pos k2 ltac:(lia)) as Hp2.
  assert (Hq3 : q2 / 2 ^ k2 <= Zpos b * 2 ^ (eb - (e1 + k2))).
  { apply Z.div_le_upper_bound; [exact Hp2 | ].
    rewrite Hpow2 in Hq1. lia. }
  assert (Hq3' : 0 <= q2 / 2 ^ k2) by (apply Z.div_pos; lia).
  destruct (q2 / 2 ^ k2) as [ | m | m] eqn:E3.
  - left. reflexivity.
  - right. exists m, (e1 + k2).
    replace (e1 + k2 <=? emax - prec) with true
      by (symmetry; apply Z.leb_le; cbn; lia).
    repeat split; [lia | exact Hq3].
  - lia.
Qed.

Lemma SFleb_finite_below (b m : positive) (eb e : Z) :
  e <= eb -> Zpos m <= Zpos b * 2 ^ (eb - e) ->
  SFleb (S754_finite false m e) (S754_finite false b eb) = true.
Proof.
  intros He Hm. unfold SFleb, SFcompare.
  destruct (Z.compare_spec e eb) as [-> | Hlt | Hgt]; [ | reflexivity | lia].
  rewrite Pos.compare_cont_spec. cbn [Pos.switch_Eq].
  rewrite Z.sub_diag, Z.pow_0_r, Z.mul_1_r in Hm.
  destruct (Pos.compare_spec m b) as [ | | Hgt]; try reflexivity.
  apply Pos2Z.pos_lt_pos in Hgt. lia.
Qed.

(** The quotient of a float below one hundred by one hundred, before
    rounding. *)
Lemma SFdiv_100_core (m : positive) (e : Z) :
  bounded prec emax m e = true ->
  e <= -46 -> Zpos m < 7036874417766400 * 2 ^ (-46 - e) ->
  exists (q e' : Z) (l : location),
    SFdiv prec emax (S754_finite false m e)
          (S754_finite false 7036874417766400 (-46))
    = binary_round_aux prec emax false q e' l /\
    0 <= q /\ e' <= -53 /\ q < 2 ^ (- e').
Proof.
  intros Hb He Hlt.
  unfold bounded, canonical_mantissa in Hb.
  apply andb_prop in Hb. destruct Hb as [Hcanon _].
  apply Z.eqb_eq in Hcanon. rewrite fexp64 in Hcanon.
  cbn [SFdiv xorb]. unfold SFdiv_core_binary.
  change (Zdigits2 (Zpos m)) with (Zpos (digits2_pos m)).
  change (Zdigits2 7036874417766400) with 53.
  rewrite fexp64.
  set (d1 := Zpos (digits2_pos m)) in *.
  set (e' := Z.min (Z.max (d1 + e - (53 + -46) - 53) (-1074)) (e - -46)).
  assert (He' : e' <= -53 /\ 0 <= e - -46 - e') by (subst e'; lia).
  set (s := e - -46 - e') in *.
  assert (Hm' : match s with
                | Z0 => Zpos m
                | Zpos _ => Z.shiftl (Zpos m) s
                | Zneg _ => 0
                end = Zpos m * 2 ^ s).
  { destruct s as [ | ps | ps] eqn:Es.
    - cbn. lia.
    - apply Z.shiftl_mul_pow2. lia.
    - lia. }
  rewrite Hm'.
  destruct (Z.div_eucl (Zpos m * 2 ^ s) 7036874417766400) as [q r] eqn:Ediv.
  assert (Hq : q = Zpos m * 2 ^ s / 7036874417766400).
  { unfold Z.div. rewrite Ediv. reflexivity. }
  exists q, e', (new_location 7036874417766400 r).
  split; [reflexivity | ].
  pose proof (pow2_pos s ltac:(lia)) as Hs.
  split; [ | split].
  - rewrite Hq. apply Z.div_pos; lia.
  - lia.
  - rewrite Hq. apply Z.div_lt_upper_bound; [lia | ].
    replace (- e') with (-46 - e + s) by (subst s; lia).
    rewrite Z.pow_add_r by lia.
    apply Z.le_lt_trans with (Zpos m * 2 ^ s); [lia | ].
    rewrite Z.mul_assoc. apply Z.mul_lt_mono_pos_r; lia.
Qed.

Lemma Prim2SF_100 : Prim2SF 100 = S754_finite false 7036874417766400 (-46).
Proof. vm_compute. reflexivity. Qed.

Lemma Prim2SF_1 : Prim2SF 1 = S754_finite false 4503599627370496 (-52).
Proof. vm_compute. reflexivity. Qed.

Lemma Prim2SF_0 : Prim2SF 0 = S754_zero false.
Proof. vm_compute. reflexivity. Qed.

Lemma digits2_pos_le_prec (m : positive) (e : Z) :
  bounded prec emax m e = true -> Zpos m < 2 ^ 53.
Proof.
  intros Hb. unfold bounded, canonical_mantissa in Hb.
  apply andb_prop in Hb. destruct Hb as [Hcanon _].
  apply Z.eqb_eq in Hcanon. rewrite fexp64 in Hcanon.
  pose proof (digits2_pos_bounds m) as [_ Hhi].
  apply Z.lt_le_trans with (1 := Hhi).
  apply Z.pow_le_mono_r; lia.
Qed.

Lemma below_100_cases (m : positive) (e : Z) :
  bounded prec emax m e = true ->
  SFleb (S754_finite false m e) (S754_finite false 7036874417766400 (-46)) = true ->
  (e = -46 /\ m = 7036874417766400%positive) \/
  (e <= -46 /\ Zpos m < 7036874417766400 * 2 ^ (-46 - e)).
Proof.
  intros Hvalid Hle.
  unfold SFleb, SFcompare in Hle.
  destruct (Z.compare_spec e (-46)) as [-> | Hlt | Hgt]; [ | | discriminate].
  - rewrite Pos.compare_cont_spec in Hle. cbn [Pos.switch_Eq] in Hle.
    destruct (Pos.compare_spec m 7036874417766400) as [-> | Hlt | Hgt];
      [left; split; reflexivity | right | discriminate].
    split; [apply Z.le_refl | ].
    change (-46 - -46) with 0. rewrite Z.pow_0_r, Z.mul_1_r.
    apply Pos2Z.pos_lt_pos. exact Hlt.
  - right. split; [apply Z.lt_le_incl; exact Hlt | ].
    pose proof (digits2_pos_le_prec m e Hvalid) as Hm.
    clear Hvalid Hle.
    assert (H2 : 2 ^ 1 <= 2 ^ (-46 - e)) by (apply Z.pow_le_mono_r; lia).
    rewrite Z.pow_1_r in H2.
    apply Z.lt_le_trans with (1 := Hm).
    apply Z.le_trans with (4503599627370496 * 2 ^ (-46 - e)).
    + change (2 ^ 53) with (4503599627370496 * 2).
      apply Z.mul_le_mono_nonneg_l; [discriminate | exact H2].
    + apply Z.mul_le_mono_nonneg_r; [lia | discriminate].
Qed.

(** A float in [0, 100] divided by 100 lies in [0, 1]. *)
Theorem div_100_unit_interval (p : float) :
  (0 <=? p)%float = true -> (p <=? 100)%float = true ->
  (0 <=? p / 100)%float = true /\ (p / 100 <=? 1)%float = true.
Proof.
  rewrite !leb_spec, div_spec, Prim2SF_100, Prim2SF_1, Prim2SF_0.
  pose proof (Prim2SF_valid p) as Hvalid.
  destruct (Prim2SF p) as [s | s | | s m e]; cbn [valid_binary] in Hvalid.
  - intros _ _. destruct s; split; reflexivity.
  - destruct s; cbn; intros; discriminate.
  - cbn; intros; discriminate.
  - destruct s; [cbn; intros; discriminate | ].
    intros _ Hle.
    destruct (below_100_cases m e Hvalid Hle) as [[-> ->] | [He Hlt]].
    + split; vm_compute; reflexivity.
    + destruct (SFdiv_100_core m e Hvalid He Hlt) as (q & e' & l & Hdiv & Hq & He' & Hqlt).
      unfold SF64div. rewrite Hdiv.
      destruct (binary_round_aux_below 4503599627370496 (-52) q e' l)
        as [-> | (m3 & e3 & -> & He3 & Hm3)].
      * reflexivity.
      * lia.
      * exact Hq.
      * lia.
      * rewrite <- (Z.pow_add_r 2 52) by lia.
        replace (52 + (-52 - e')) with (- e') by lia. exact Hqlt.
      * split; reflexivity.
      * split; [reflexivity | apply SFleb_finite_below; assumption].
Qed.

(** *** Exact products and quotients *)

Lemma Zdigits2_unique (x d : Z) :
  2 ^ (d - 1) <= x < 2 ^ d -> 1 <= d -> Zdigits2 x = d.
Proof.
  intros [Hlo Hhi] Hd.
  pose proof (pow2_pos (d - 1) ltac:(lia)) as Hpos.
  destruct x as [ | p | p]; try lia. cbn [Zdigits2].
  pose proof (digits2_pos_bounds p) as [Hlo' Hhi'].
  set (D := Zpos (digits2_pos p)) in *.
  assert (H1 : 2 ^ (D - 1) < 2 ^ d) by lia.
  assert (H2 : 2 ^ (d - 1) < 2 ^ D) by lia.
  apply Z.pow_lt_mono_r_iff in H1; [ | lia | lia].
  apply Z.pow_lt_mono_r_iff in H2; [ | lia | lia].
  lia.
Qed.

Lemma shr_1_exact (n : Z) :
  0 <= n ->
  shr_1 (Build_shr_record (n * 2) false false) = Build_shr_record n false false.
Proof.
  intros Hn. destruct n as [ | p | p]; [reflexivity | | lia].
  rewrite Z.mul_comm. reflexivity.
Qed.

Lemma iter_shr_1_exact (k : positive) :
  forall n, 0 <= n ->
  iter_pos shr_1 k (Build_shr_record (n * 2 ^ Zpos k) false false)
  = Build_shr_record n false false.
Proof.
  induction k as [k IH | k IH | ]; intros n Hn; cbn [iter_pos].
  - replace (n * 2 ^ Zpos k~1) with (n * 2 ^ Zpos k * 2 ^ Zpos k * 2).
    + rewrite shr_1_exact.
      * rewrite IH; [apply IH; exact Hn | ].
        pose proof (pow2_pos (Zpos k)); lia.
      * pose proof (pow2_pos (Zpos k) ltac:(lia)).
        apply Z.mul_nonneg_nonneg; [apply Z.mul_nonneg_nonneg | ]; lia.
    + assert (Hx : Zpos k~1 = Zpos k + Zpos k + 1) by lia.
      rewrite Hx, !Z.pow_add_r by lia. rewrite Z.pow_1_r. ring.
  - replace (n * 2 ^ Zpos k~0) with (n * 2 ^ Zpos k * 2 ^ Zpos k).
    + rewrite IH; [apply IH; exact Hn | ].
      pose proof (pow2_pos (Zpos k)); lia.
    + assert (Hx : Zpos k~0 = Zpos k + Zpos k) by lia.
      rewrite Hx, !Z.pow_add_r by lia. ring.
  - rewrite Z.pow_1_r. apply shr_1_exact, Hn.
Qed.

(** Rounding a value that needs no rounding: the mantissa [n * 2^k] is
    shifted down to [n], exactly. *)
Lemma binary_round_aux_exact (s : bool) (n : positive) (e k : Z) :
  0 <= k ->
  fexp prec emax (Zdigits2 (Zpos n * 2 ^ k) + e) - e = k ->
  fexp prec emax (Zpos (digits2_pos n) + (e + k)) = e + k ->
  e + k <= 971 ->
  binary_round_aux prec emax s (Zpos n * 2 ^ k) e loc_Exact
  = S754_finite s n (e + k).
Proof.
  intros Hk Hshift Hcanon Hmax.
  unfold binary_round_aux, shr_fexp. rewrite Hshift.
  cbn [shr_record_of_loc].
  assert (Hfirst : shr (Build_shr_record (Zpos n * 2 ^ k) false false) e k
                   = (Build_shr_record (Zpos n) false false, e + k)).
  { destruct k as [ | pk | pk]; cbn [shr].
    - rewrite Z.pow_0_r, Z.mul_1_r, Z.add_0_r. reflexivity.
    - rewrite iter_shr_1_exact by lia. reflexivity.
    - lia. }
  rewrite Hfirst.
  cbn [shr_m loc_of_shr_record round_nearest_even Zdigits2].
  rewrite Hcanon, Z.sub_diag.
  cbn [shr_record_of_loc shr shr_m].
  replace (e + k <=? emax - prec) with true
    by (symmetry; apply Z.leb_le; exact Hmax).
  reflexivity.
Qed.

Lemma div_eucl_exact (q b : Z) : 0 < b -> Z.div_eucl (q * b) b = (q, 0).
Proof.
  intros Hb.
  pose proof (Z.div_mul q b ltac:(lia)) as Hq.
  pose proof (Z.mod_mul q b ltac:(lia)) as Hr.
  unfold Z.div, Z.modulo in Hq, Hr.
  destruct (Z.div_eucl (q * b) b) as [q' r']. congruence.
Qed.

(** The mantissa of a normal number has 53 digits. *)
Lemma digits_53 (n : Z) :
  4503599627370496 <= n < 9007199254740992 -> Zdigits2 n = 53.
Proof. intros H. apply Zdigits2_unique; [exact H | lia]. Qed.

Lemma digits_shifted (n k : Z) :
  0 <= k -> 4503599627370496 <= n < 9007199254740992 ->
  Zdigits2 (n * 2 ^ k) = 53 + k.
Proof.
  intros Hk [Hlo Hhi]. pose proof (pow2_pos k Hk) as Hp.
  apply Zdigits2_unique; [ | lia].
  replace (53 + k - 1) with (52 + k) by lia.
  rewrite !Z.pow_add_r by lia.
  change (2 ^ 52) with 4503599627370496. change (2 ^ 53) with 9007199254740992.
  split.
  - apply Z.mul_le_mono_nonneg_r; lia.
  - apply Z.mul_lt_mono_pos_r; lia.
Qed.

(** An exact product of a normal mantissa [n] by [2^k] rounds to [n]. *)
Lemma binary_round_aux_normal (s : bool) (n : positive) (e k : Z) :
  0 <= k -> 4503599627370496 <= Zpos n < 9007199254740992 ->
  -1074 <= e + k <= 971 ->
  binary_round_aux prec emax s (Zpos n * 2 ^ k) e loc_Exact
  = S754_finite s n (e + k).
Proof.
  intros Hk Hn He.
  apply binary_round_aux_exact; try lia.
  - rewrite digits_shifted by assumption. rewrite fexp64. lia.
  - change (Zpos (digits2_pos n)) with (Zdigits2 (Zpos n)).
    rewrite digits_53 by assumption. rewrite fexp64. lia.
Qed.

(** Times one hundred: the product of a 24-bit significand by 25 has at
    most 29 bits, so it is a float and nothing is rounded away. *)
Lemma SFmul_100_exact (s : bool) (a : positive) (e : Z) :
  8388608 <= Zpos a < 16777216 -> -1073 <= e <= 964 ->
  exists (n : positive) (t : Z),
    (t = 24 \/ t = 25) /\
    Zpos n = Zpos a * 25 * 2 ^ t /\
    4503599627370496 <= Zpos n < 9007199254740992 /\
    SFmul prec emax (S754_finite s (a * 536870912) e)
          (S754_finite false 7036874417766400 (-46))
    = S754_finite s n (e + 31 - t).
Proof.
  intros Ha He. cbn [SFmul]. rewrite xorb_false_r.
  destruct (Z_lt_le_dec (Zpos a * 25) 268435456) as [Hsmall | Hbig].
  - exists (a * 838860800)%positive, 25.
    assert (Hn : Zpos (a * 838860800) = Zpos a * 25 * 2 ^ 25).
    { rewrite Pos2Z.inj_mul. change (2 ^ 25) with 33554432. lia. }
    assert (Hb : 4503599627370496 <= Zpos (a * 838860800) < 9007199254740992).
    { rewrite Hn. change (2 ^ 25) with 33554432. lia. }
    split; [right; reflexivity | ]. split; [exact Hn | ]. split; [exact Hb | ].
    replace (Zpos (a * 536870912 * 7036874417766400))
      with (Zpos (a * 838860800) * 2 ^ 52).
    + rewrite binary_round_aux_normal by (try assumption; lia).
      f_equal. lia.
    + rewrite !Pos2Z.inj_mul. change (2 ^ 52) with 4503599627370496. lia.
  - exists (a * 419430400)%positive, 24.
    assert (Hn : Zpos (a * 419430400) = Zpos a * 25 * 2 ^ 24).
    { rewrite Pos2Z.inj_mul. change (2 ^ 24) with 16777216. lia. }
    assert (Hb : 4503599627370496 <= Zpos (a * 419430400) < 9007199254740992).
    { rewrite Hn. change (2 ^ 24) with 16777216. lia. }
    split; [left; reflexivity | ]. split; [exact Hn | ]. split; [exact Hb | ].
    replace (Zpos (a * 536870912 * 7036874417766400))
      with (Zpos (a * 419430400) * 2 ^ 53).
    + rewrite binary_round_aux_normal by (try assumption; lia).
      f_equal. lia.
    + rewrite !Pos2Z.inj_mul. change (2 ^ 53) with 9007199254740992. lia.
Qed.

(** ... and back: the quotient by one hundred is exact as well. *)
Lemma SFdiv_100_exact (s : bool) (a n : positive) (e t : Z) :
  8388608 <= Zpos a < 16777216 -> -1073 <= e <= 964 ->
  t = 24 \/ t = 25 ->
  Zpos n = Zpos a * 25 * 2 ^ t ->
  4503599627370496 <= Zpos n < 9007199254740992 ->
  SFdiv prec emax (S754_finite s n (e + 31 - t))
        (S754_finite false 7036874417766400 (-46))
  = S754_finite s (a * 536870912) e.
Proof.
  intros Ha He Ht Hn Hb. cbn [SFdiv]. rewrite xorb_false_r.
  unfold SFdiv_core_binary.
  rewrite (digits_53 (Zpos n) Hb).
  change (Zdigits2 7036874417766400) with 53.
  rewrite fexp64.
  replace (Z.min (Z.max (53 + (e + 31 - t) - (53 + -46) - 53) (-1074))
                 (e + 31 - t - -46))
    with (e + 24 - t) by lia.
  replace (e + 31 - t - -46 - (e + 24 - t)) with 53 by lia.
  cbv beta iota zeta.
  rewrite Z.shiftl_mul_pow2 by lia.
  replace (Zpos n * 2 ^ 53)
    with (Zpos (a * 536870912) * 2 ^ (t - 24) * 7036874417766400).
  - rewrite div_eucl_exact by lia.
    change (new_location 7036874417766400 0) with loc_Exact.
    rewrite binary_round_aux_normal.
    + f_equal. lia.
    + lia.
    + rewrite Pos2Z.inj_mul. lia.
    + lia.
  - rewrite Hn, Pos2Z.inj_mul.
    change (2 ^ 53) with 9007199254740992.
    destruct Ht as [-> | ->].
    + change (2 ^ (24 - 24)) with 1. change (2 ^ 24) with 16777216. lia.
    + change (2 ^ (25 - 24)) with 2. change (2 ^ 25) with 33554432. lia.
Qed.

Lemma SF_times_100_over_100 (s : bool) (a : positive) (e : Z) :
  8388608 <= Zpos a < 16777216 -> -1073 <= e <= 964 ->
  SFdiv prec emax
        (SFmul prec emax (S754_finite s (a * 536870912) e)
               (S754_finite false 7036874417766400 (-46)))
        (S754_finite false 7036874417766400 (-46))
  = S754_finite s (a * 536870912) e.
Proof.
  intros Ha He.
  destruct (SFmul_100_exact s a e Ha He) as (n & t & Ht & Hn & Hb & ->).
  apply SFdiv_100_exact; assumption.
Qed.

Theorem times_100_over_100 (v : float) :
  short_significand v -> (v * 100 / 100)%float = v.
Proof.
  unfold short_significand. intros Hv.
  apply Prim2SF_inj.
  rewrite div_spec, mul_spec, Prim2SF_100.
  destruct (Prim2SF v) as [s | s | | s m e]; try contradiction.
  - destruct s; reflexivity.
  - destruct Hv as (a & -> & Ha & He).
    apply SF_times_100_over_100; assumption.
Qed.

Lemma below_1_cases (m : positive) (e : Z) :
  bounded prec emax m e = true ->
  SFleb (S754_finite false m e) (S754_finite false 4503599627370496 (-52)) = true ->
  (e = -52 /\ m = 4503599627370496%positive) \/
  (e <= -52 /\ Zpos m < 2 ^ (- e)).
Proof.
  intros Hvalid Hle.
  unfold SFleb, SFcompare in Hle.
  destruct (Z.compare_spec e (-52)) as [-> | Hlt | Hgt]; [ | | discriminate].
  - rewrite Pos.compare_cont_spec in Hle. cbn [Pos.switch_Eq] in Hle.
    destruct (Pos.compare_spec m 4503599627370496) as [-> | Hlt | Hgt];
      [left; split; reflexivity | right | discriminate].
    split; [apply Z.le_refl | ].
    change (2 ^ (- -52)) with 4503599627370496.
    apply Pos2Z.pos_lt_pos. exact Hlt.
  - right. split; [apply Z.lt_le_incl; exact Hlt | ].
    pose proof (digits2_pos_le_prec m e Hvalid) as Hm.
    clear Hvalid Hle.
    apply Z.lt_le_trans with (1 := Hm).
    apply Z.pow_le_mono_r; lia.
Qed.

(** A float in [0, 1] times 100 lies in [0, 100]. *)
Theorem mul_100_range (v : float) :
  (0 <=? v)%float = true -> (v <=? 1)%float = true ->
  (0 <=? v * 100)%float = true /\ (v * 100 <=? 100)%float = true.
Proof.
  rewrite !leb_spec, mul_spec, Prim2SF_100, Prim2SF_1, Prim2SF_0.
  pose proof (Prim2SF_valid v) as Hvalid.
  destruct (Prim2SF v) as [s | s | | s m e]; cbn [valid_binary] in Hvalid.
  - intros _ _. destruct s; split; reflexivity.
  - destruct s; cbn; intros; discriminate.
  - cbn; intros; discriminate.
  - destruct s; [cbn; intros; discriminate | ].
    intros _ Hle.
    destruct (below_1_cases m e Hvalid Hle) as [[-> ->] | [He Hlt]].
    + split; vm_compute; reflexivity.
    + unfold SF64mul. cbn [SFmul xorb].
      destruct (binary_round_aux_below 7036874417766400 (-46)
                  (Zpos (m * 7036874417766400)) (e + -46) loc_Exact)
        as [-> | (m3 & e3 & -> & He3 & Hm3)].
      * reflexivity.
      * lia.
      * apply Pos2Z.is_nonneg.
      * lia.
      * rewrite Pos2Z.inj_mul, (Z.mul_comm (Zpos m)).
        replace (-46 - (e + -46)) with (- e) by lia.
        apply Z.mul_lt_mono_pos_l; [reflexivity | exact Hlt].
      * split; reflexivity.
      * split; [reflexivity | apply SFleb_finite_below; assumption].
Qed.


Lemma eqb_refl_short (v : float) :
  short_significand v -> (v =? v)%float = true.
Proof.
  unfold short_significand. rewrite eqb_spec. intros Hv.
  destruct (Prim2SF v) as [s | s | | s m e]; try contradiction.
  - reflexivity.
  - unfold SFeqb, SFcompare.
    destruct s; rewrite Z.compare_refl, Pos.compare_cont_refl; reflexivity.
Qed.

End Binary64.

(** * The slider within its range *)

(** X1. For every slider position within the slider's range, from 0 to 100,
    the volume [_slide_volume] asks for lies in [0.0, 1.0], and so does
    every volume it writes to the audio session: the handler has no clamp,
    and the division by one hundred does not leave the interval. *)
Theorem slide_volume_in_range_writes_in_unit_interval
    (value : float) (r : AppRow) :
  in_slider_range value = true ->
  in_unit_interval (value / 100)%float = true /\
  forall v : float,
    In (SetMasterVolume v) (trace (_slide_volume value r)) ->
    in_unit_interval v = true.
Proof.
  unfold in_slider_range, in_unit_interval. intros Hrange.
  apply andb_prop in Hrange. destruct Hrange as [H0 H100].
  destruct (Binary64.div_100_unit_interval value H0 H100) as [Hlo Hhi].
  assert (Hunit : ((0 <=? value / 100) && (value / 100 <=? 1))%float = true)
    by (rewrite Hlo, Hhi; reflexivity).
  split; [exact Hunit | ].
  intros v Hin. rewrite slide_volume_eq in Hin.
  destruct (volume (session r) =? value / 100)%float; cbn [trace In] in Hin.
  - contradiction.
  - destruct Hin as [Hin | [Hin | []]]; [discriminate Hin | ].
    injection Hin as <-. exact Hunit.
Qed.

Lemma slide_volume_in_range_writes_in_unit_interval_witness :
  in_slider_range 30 = true /\
  in_unit_interval (30 / 100)%float = true.
Proof.
  split; [reflexivity | ].
  exact (proj1 (slide_volume_in_range_writes_in_unit_interval
                  30 app_row eq_refl)).
Defined.

(** X2. For every volume payload in [0.0, 1.0], [update_volume] leaves the
    slider's variable within the slider's range, from 0 to 100. *)
Theorem update_volume_keeps_slider_in_range (new_volume : float) (r : AppRow) :
  in_unit_interval new_volume = true ->
  in_slider_range (volume_slider_state (final (update_volume new_volume r)))
  = true.
Proof.
  unfold in_slider_range, in_unit_interval. intros Hunit.
  apply andb_prop in Hunit. destruct Hunit as [H0 H1].
  rewrite update_volume_eq. cbn [final volume_slider_state with_volume_slider_state].
  destruct (Binary64.mul_100_range new_volume H0 H1) as [-> ->].
  reflexivity.
Qed.

Lemma update_volume_keeps_slider_in_range_witness :
  in_unit_interval 0x1.75c28f5c28f5cp-1 = true /\
  in_slider_range
    (volume_slider_state (final (update_volume 0x1.75c28f5c28f5cp-1 app_row)))
  = true.
Proof.
  split; [reflexivity | ].
  exact (update_volume_keeps_slider_in_range 0x1.75c28f5c28f5cp-1 app_row eq_refl).
Defined.

(** * No echo for a volume in single precision *)

(** X3. For a volume payload whose significand fits 24 bits (every volume
    the audio session reports in single precision), the position
    [update_volume] shows converts back to exactly that volume. A slide to
    the shown position therefore asks for the payload itself, and on a row
    whose session is at that volume, as it is when the notification arrives,
    [_slide_volume] takes it for the value already held: it writes nothing
    and leaves the row as [update_volume] left it. *)
Theorem shown_volume_slides_back_without_echo (v : float) (r : AppRow) :
  short_significand v ->
  (volume_slider_state (final (update_volume v r)) / 100)%float = v /\
  session_writes
    (trace (_slide_volume (volume_slider_state (final (update_volume v r)))
                          (final (update_volume v r)))) =
    (if (volume (session r) =? v)%float then [] else [SetMasterVolume v]) /\
  (volume (session r) = v ->
   _slide_volume (volume_slider_state (final (update_volume v r)))
                 (final (update_volume v r))
   = Outcome (inl tt) (final (update_volume v r)) []).
Proof.
  intros Hshort.
  rewrite update_volume_eq.
  cbn [final volume_slider_state with_volume_slider_state].
  rewrite slide_volume_eq. cbn [session with_volume_slider_state].
  rewrite (Binary64.times_100_over_100 v Hshort).
  split; [reflexivity | split].
  - destruct (volume (session r) =? v)%float; reflexivity.
  - intros ->. rewrite (Binary64.eqb_refl_short v Hshort). reflexivity.
Qed.

Lemma shown_volume_slides_back_without_echo_witness :
  short_significand 0x1.75c2900000000p-1 /\
  (volume_slider_state (final (update_volume 0x1.75c2900000000p-1 app_row))
   / 100)%float = 0x1.75c2900000000p-1%float.
Proof.
  assert (Hshort : short_significand 0x1.75c2900000000p-1).
  { unfold short_significand.
    replace (Prim2SF 0x1.75c2900000000p-1)
      with (S754_finite false (12247368 * 536870912) (-53))
      by (vm_compute; reflexivity).
    exists 12247368%positive. repeat split; lia. }
  split; [exact Hshort | ].
  exact (proj1 (shown_volume_slides_back_without_echo
                  0x1.75c2900000000p-1 app_row Hshort)).
Defined.

(** * Callbacks on a row with widgets and on a row without *)

Lemma update_state_live (new_state : AudioSessionState.t) (r : AppRow) :
  winfo_exists r = true ->
  update_state new_state r =
  Outcome (inl tt) (applied (OnState new_state) r)
          (emitted (app_name r) (OnState new_state)).
Proof.
  intros Hlive. unfold update_state, status_line_configure, bind, get.
  destruct new_state; cbn; rewrite ?Hlive; reflexivity.
Qed.

(** With widgets, a callback returns normally, makes the assignments of its
    branch and prints its lines. *)
Lemma deliver_live (n : notification) (r : AppRow) :
  winfo_exists r = true ->
  deliver n r = Outcome (inl tt) (applied n r) (emitted (app_name r) n).
Proof.
  intros Hlive. destruct n as [v | b | s]; cbn [deliver].
  - apply update_volume_eq.
  - apply update_mute_live, Hlive.
  - apply update_state_live, Hlive.
Qed.

(** Without widgets, a callback raises at the first widget it commands; the
    only assignment left is that of the slider's variable. *)
Lemma deliver_gone_eq (n : notification) (r : AppRow) :
  winfo_exists r = false ->
  deliver n r =
  Outcome (match commanded n with
           | Some w => inr (TclError w)
           | None => inl tt
           end)
          (match n with
           | OnVolume v => with_volume_slider_state (v * 100)%float r
           | _ => r
           end)
          (match n with
           | OnMute _ => []
           | _ => [printed (app_name r) n]
           end).
Proof.
  intros Hgone. destruct n as [v | b | s]; cbn [deliver commanded].
  - apply update_volume_eq.
  - apply update_mute_gone, Hgone.
  - rewrite update_state_gone by exact Hgone. destruct s; reflexivity.
Qed.

Lemma applied_winfo_exists (n : notification) (r : AppRow) :
  winfo_exists (applied n r) = winfo_exists r && negb (is_expired n).
Proof.
  destruct n as [v | b | [ | | | code]]; cbn;
    rewrite ?andb_true_r, ?andb_false_r; reflexivity.
Qed.

Lemma emitted_teardowns (name : string) (n : notification) :
  teardowns (emitted name n) = if is_expired n then 1 else 0.
Proof. destruct n as [v | b | [ | | | code]]; reflexivity. Qed.

Lemma emitted_session_writes (name : string) (n : notification) :
  session_writes (emitted name n) = [].
Proof. destruct n as [v | b | [ | | | code]]; reflexivity. Qed.

(** * What a sequence of notifications never does *)

(** X4. No sequence of notifications, on a row with widgets or without,
    makes the callbacks write to the audio session: the trace of the whole
    run holds no call to the session, and the session and the name the row
    holds are those it started with. *)
Theorem notifications_never_write_to_the_session
    (ns : list notification) (r : AppRow) :
  session_writes (output (deliver_all ns r)) = [] /\
  session (row (deliver_all ns r)) = session r /\
  app_name (row (deliver_all ns r)) = app_name r.
Proof.
  revert r. induction ns as [ | n ns IH]; intros r.
  - repeat split.
  - cbn [deliver_all row output].
    assert (Hstep : session_writes (trace (deliver n r)) = [] /\
                    session (final (deliver n r)) = session r /\
                    app_name (final (deliver n r)) = app_name r).
    { destruct (winfo_exists r) eqn:Hexists.
      - rewrite (deliver_live n r Hexists). cbn [trace final].
        rewrite emitted_session_writes.
        destruct n as [v | b | [ | | | code]]; repeat split.
      - rewrite (deliver_gone_eq n r Hexists). cbn [trace final].
        destruct n as [v | b | s]; repeat split. }
    destruct Hstep as (Hw & Hs & Hn).
    destruct (IH (final (deliver n r))) as (IHw & IHs & IHn).
    rewrite session_writes_app, Hw, IHw, IHs, IHn, Hs, Hn.
    repeat split.
Qed.

(** * The teardown, once *)

(** X5. Over any sequence of notifications the teardown of the row is issued
    exactly once when the row had widgets and the sequence holds an
    [Expired], and never otherwise; the row has widgets afterwards exactly
    when it had them before and no [Expired] was delivered. *)
Theorem teardown_exactly_once_on_expired
    (ns : list notification) (r : AppRow) :
  teardowns (output (deliver_all ns r)) =
    (if winfo_exists r && existsb is_expired ns then 1 else 0) /\
  winfo_exists (row (deliver_all ns r)) =
    winfo_exists r && negb (existsb is_expired ns).
Proof.
  revert r. induction ns as [ | n ns IH]; intros r.
  - cbn. rewrite andb_false_r, andb_true_r. split; reflexivity.
  - cbn [deliver_all row output existsb].
    destruct (IH (final (deliver n r))) as [IHt IHw].
    rewrite teardowns_app, IHt, IHw.
    destruct (winfo_exists r) eqn:Hexists.
    + rewrite (deliver_live n r Hexists). cbn [trace final].
      rewrite emitted_teardowns, applied_winfo_exists, Hexists.
      destruct (is_expired n); destruct (existsb is_expired ns);
        split; reflexivity.
    + rewrite (deliver_gone_eq n r Hexists). cbn [trace final].
      assert (Hgone : winfo_exists
                        match n with
                        | OnVolume v => with_volume_slider_state (v * 100)%float r
                        | _ => r
                        end = false)
        by (destruct n; exact Hexists).
      rewrite Hgone.
      destruct n as [v | b | s]; split; reflexivity.
Qed.

(** * The display after a sequence without expiry *)

(** X6. As long as no [Expired] is delivered, a row with widgets keeps them,
    no callback raises, each prints its line, one per notification and in
    the order of delivery, and each part of the display follows the last
    notification that concerns it: the slider's variable the last volume
    payload (times 100), the mute button the last mute payload, the status
    line the last [Active] or [Inactive]; a status that is neither leaves
    the status line alone. *)
Theorem display_follows_last_notifications
    (ns : list notification) (r : AppRow) :
  winfo_exists r = true ->
  existsb is_expired ns = false ->
  raised (deliver_all ns r) = [] /\
  output (deliver_all ns r) = map (printed (app_name r)) ns /\
  winfo_exists (row (deliver_all ns r)) = true /\
  volume_slider_state (row (deliver_all ns r)) =
    match last_volume ns with
    | Some v => (v * 100)%float
    | None => volume_slider_state r
    end /\
  mute_button_state (row (deliver_all ns r)) =
    match last_mute ns with
    | Some b => mute_icon b
    | None => mute_button_state r
    end /\
  mute_button_style (row (deliver_all ns r)) =
    match last_mute ns with
    | Some b => mute_style b
    | None => mute_button_style r
    end /\
  status_line_style (row (deliver_all ns r)) =
    match last_status_style ns with
    | Some style => style
    | None => status_line_style r
    end.
Proof.
  revert r. induction ns as [ | n ns IH]; intros r Hlive Hnone.
  - repeat split. exact Hlive.
  - cbn [existsb] in Hnone. apply orb_false_elim in Hnone.
    destruct Hnone as [Hn Hns].
    cbn [deliver_all]. rewrite (deliver_live n r Hlive).
    cbn [result final trace row output raised].
    assert (Hlive' : winfo_exists (applied n r) = true)
      by (rewrite applied_winfo_exists, Hlive, Hn; reflexivity).
    destruct (IH (applied n r) Hlive' Hns)
      as (Hr & Ho & Hw & Hv & Hm & Hs & Hst).
    rewrite Hr, Ho, Hw, Hv, Hm, Hs, Hst.
    cbn [last_volume last_mute last_status_style map].
    unfold emitted. rewrite Hn.
    destruct n as [v | b | [ | | | code]]; try discriminate Hn;
      destruct (last_volume ns); destruct (last_mute ns);
      destruct (last_status_style ns); repeat split; reflexivity.
Qed.

Lemma display_follows_last_notifications_witness :
  status_line_style
    (row (deliver_all [OnState Inactive; OnMute true; OnState (Other 7);
                       OnState Active; OnVolume 0.25] app_row))
  = "Active.TFrame" /\
  volume_slider_state
    (row (deliver_all [OnState Inactive; OnMute true; OnState (Other 7);
                       OnState Active; OnVolume 0.25] app_row))
  = 25%float.
Proof.
  pose proof (display_follows_last_notifications
                [OnState Inactive; OnMute true; OnState (Other 7);
                 OnState Active; OnVolume 0.25] app_row eq_refl eq_refl)
    as (_ & _ & _ & Hv & _ & _ & Hst).
  exact (conj Hst Hv).
Defined.

(** * When a callback raises *)

Lemma raised_gone (ns : list notification) (r : AppRow) :
  winfo_exists r = false ->
  raised (deliver_all ns r) = raised_when_gone ns.
Proof.
  revert r. induction ns as [ | n ns IH]; intros r Hgone.
  - reflexivity.
  - cbn [deliver_all raised raised_when_gone].
    rewrite (deliver_gone_eq n r Hgone). cbn [result final].
    rewrite IH by (destruct n; exact Hgone).
    destruct (commanded n); reflexivity.
Qed.

(** X7. A callback raises only once the row has been torn down. On a row
    with widgets, the exceptions a sequence raises are those of the
    notifications that follow the first [Expired], one for each that
    commands a widget (a mute notification, or a state notification of
    [Inactive], [Active] or [Expired]); on a row without widgets, those of
    the whole sequence. *)
Theorem callbacks_raise_only_after_teardown
    (ns : list notification) (r : AppRow) :
  raised (deliver_all ns r) =
  raised_when_gone (if winfo_exists r then after_first_expired ns else ns).
Proof.
  destruct (winfo_exists r) eqn:Hexists; [ | apply raised_gone, Hexists].
  revert r Hexists. induction ns as [ | n ns IH]; intros r Hlive.
  - reflexivity.
  - cbn [deliver_all raised after_first_expired].
    rewrite (deliver_live n r Hlive). cbn [result final].
    destruct (is_expired n) eqn:Hn.
    + apply raised_gone. rewrite applied_winfo_exists, Hn, Hlive. reflexivity.
    + apply IH. rewrite applied_winfo_exists, Hn, Hlive. reflexivity.
Qed.

(** * Duplicates *)

(** X8. Delivering a notification a second time leaves the row as the first
    delivery left it, for every notification and every row, with widgets or
    without (the second call may raise, as a duplicate [Expired] does; it
    assigns nothing new). *)
Theorem duplicate_notification_leaves_row
    (n : notification) (r : AppRow) :
  final (deliver n (final (deliver n r))) = final (deliver n r).
Proof.
  destruct (winfo_exists r) eqn:Hexists.
  - rewrite (deliver_live n r Hexists). cbn [final].
    destruct (is_expired n) eqn:Hn.
    + rewrite deliver_gone_eq
        by (rewrite applied_winfo_exists, Hn, Hexists; reflexivity).
      destruct n as [v | b | [ | | | code]]; try discriminate Hn. reflexivity.
    + rewrite deliver_live
        by (rewrite applied_winfo_exists, Hn, Hexists; reflexivity).
      destruct n as [v | b | [ | | | code]]; reflexivity.
  - rewrite (deliver_gone_eq n r Hexists). cbn [final].
    rewrite deliver_gone_eq by (destruct n; exact Hexists).
    destruct n as [v | b | s]; reflexivity.
Qed.

(** * The new row *)

(** X9. For a session that has not expired, [__init__] returns a row with
    widgets that shows the session as it is: the slider at the session's
    volume times 100, the mute button with the text and style of the
    session's mute value, the status line in the style of its status (left
    at the initial empty style for a status that is neither [Active] nor
    [Inactive]). It prints the new session first and writes nothing to the
    audio session. *)
Theorem init_shows_the_session (s : MagicSession) :
  state s <> Expired ->
  __init__ s =
  Outcome (inl tt)
          {| session := s; app_name := app_exec s;
             volume_slider_state := (volume s * 100)%float;
             mute_button_state := mute_icon (mute s);
             mute_button_style := mute_style (mute s);
             status_line_style :=
               match shown_status (state s) with
               | Some style => style
               | None => ""
               end;
             winfo_exists := true |}
          [Stdout (NewSessionLine (app_exec s));
           Stdout (MuteLine (app_exec s) (mute_icon (mute s)));
           Stdout (StateLine (app_exec s) (state s))].
Proof.
  destruct s as [name v m st]. cbn [state]. intros Hst.
  destruct st; try contradiction; destruct m; reflexivity.
Qed.

Lemma init_shows_the_session_witness :
  volume_slider_state app_row = 50%float /\
  mute_button_state app_row = icon_unmuted /\
  status_line_style app_row = "Active.TFrame".
Proof.
  assert (Hst : state app_exe <> Expired) by discriminate.
  unfold app_row. rewrite (init_shows_the_session app_exe Hst).
  repeat split.
Defined.

(** * The mute button *)

Lemma deliver_keeps_mute_button_agreement (n : notification) (r : AppRow) :
  mute_button_agrees r -> mute_button_agrees (final (deliver n r)).
Proof.
  intros [b0 [Hstate Hstyle]].
  destruct (winfo_exists r) eqn:Hexists.
  - rewrite (deliver_live n r Hexists). cbn [final].
    destruct n as [v | b | [ | | | code]];
      try (exists b0; split; assumption).
    exists b. split; reflexivity.
  - rewrite (deliver_gone_eq n r Hexists). cbn [final].
    destruct n as [v | b | s]; exists b0; split; assumption.
Qed.

(** X10. The text and the style of the mute button never disagree. If they
    are those of one mute value, they still are, of one value, after any
    sequence of notifications, after a press of the button and after a move
    of the slider, on a row with widgets or without: [update_mute] sets both
    or, when it raises, neither. *)
Theorem mute_button_text_and_style_agree
    (ns : list notification) (value : float) (r : AppRow) :
  mute_button_agrees r ->
  mute_button_agrees (row (deliver_all ns r)) /\
  mute_button_agrees (final (_toogle_mute r)) /\
  mute_button_agrees (final (_slide_volume value r)).
Proof.
  intros Hagree. split; [ | split].
  - revert r Hagree. induction ns as [ | n ns IH]; intros r Hagree.
    + exact Hagree.
    + cbn [deliver_all row]. apply IH.
      apply deliver_keeps_mute_button_agreement, Hagree.
  - destruct Hagree as [b0 [Hstate Hstyle]].
    destruct (winfo_exists r) eqn:Hexists.
    + rewrite (toogle_mute_live r Hexists). cbn [final].
      exists (negb (mute (session r))). split; reflexivity.
    + rewrite (toogle_mute_gone r Hexists). cbn [final].
      exists b0. split; assumption.
  - destruct Hagree as [b0 [Hstate Hstyle]].
    rewrite slide_volume_eq.
    destruct (volume (session r) =? value / 100)%float; cbn [final];
      exists b0; split; assumption.
Qed.

Lemma mute_button_text_and_style_agree_witness :
  mute_button_agrees app_row /\
  mute_button_agrees
    (row (deliver_all [OnMute true; OnState Expired; OnMute false] app_row)).
Proof.
  assert (Hagree : mute_button_agrees app_row)
    by (exists false; split; reflexivity).
  split; [exact Hagree | ].
  exact (proj1 (mute_button_text_and_style_agree
                  [OnMute true; OnState Expired; OnMute false] 0 app_row Hagree)).
Defined.

(** * The scale of the slider, there and back *)



(** * Commands and the expired session *)






